(** * uigen: the tool-invocation badge and the virtual file tree behind it

    The first part embeds [src/components/chat/ToolInvocationBadge.tsx]:
    [formatToolMessage] and the [ToolInvocationBadge] component.  The
    second part models the path normalizer, the virtual file tree, the
    serializer and the tool layer the way the specification describes
    them; their implementation ([src/lib/file-system.ts] and
    [src/lib/tools/]) is not among the sources. *)

From Stdlib Require Import Ascii.
From stdpp Require Import base option list strings gmap fin_maps.

Local Open Scope string_scope.
Set Warnings "-register-all".
#[local] Arguments String.append !_ _ / : simpl nomatch.

(** ** JavaScript values

    [args] is typed [any].  The values that can reach the badge are plain
    data (the parsed arguments of a tool call) or nothing at all. *)

Inductive JsValue : Type :=
  | JsUndefined
  | JsNull
  | JsBool (b : bool)
  (** a Number, carried as the text [Number::toString] prints for it; the
      code only ever tests a number for truthiness and prints it *)
  | JsNumber (repr : string)
  | JsString (s : string)
  | JsArray (elems : list JsValue)
  (** own enumerable properties, the binding in force for a key first *)
  | JsObject (props : list (string * JsValue)).

Inductive JsError : Type :=
  | TypeError.

(** The outcome of evaluating an expression: a value, or a throw. *)
Inductive Completion (A : Type) : Type :=
  | Normal (a : A)
  | Throw (e : JsError).
Arguments Normal {A} a.
Arguments Throw {A} e.

#[global] Instance Completion_ret : MRet Completion := λ A a, Normal a.
#[global] Instance Completion_bind : MBind Completion := λ A B f m,
  match m with
  | Normal a => f a
  | Throw e => Throw e
  end.
#[global] Instance Completion_fmap : FMap Completion := λ A B f m,
  match m with
  | Normal a => Normal (f a)
  | Throw e => Throw e
  end.

(** [ToBoolean]: the falsy values are [undefined], [null], [false], [0],
    [-0], [NaN] and the empty string.  Both zeros print as ["0"]. *)
Definition ToBoolean (v : JsValue) : bool :=
  match v with
  | JsUndefined | JsNull => false
  | JsBool b => b
  | JsNumber repr =>
      negb (bool_decide (repr = "0") || bool_decide (repr = "NaN"))
  | JsString s => negb (bool_decide (s = ""))
  | JsArray _ | JsObject _ => true
  end.

Fixpoint own_property (props : list (string * JsValue)) (k : string)
  : option JsValue :=
  match props with
  | [] => None
  | (k', v) :: rest => if bool_decide (k' = k) then Some v else own_property rest k
  end.

(** Property read as done by the destructuring [const { command, path } =
    args] on a truthy [args].  The keys the component reads ([command],
    [path], [new_path]) are on no built-in prototype, so every value other
    than an object with such an own property yields [undefined]. *)
Definition Get (v : JsValue) (k : string) : JsValue :=
  match v with
  | JsObject props => default JsUndefined (own_property props k)
  | _ => JsUndefined
  end.

(** [v === s] for a string literal [s], the test a [case s:] performs. *)
Definition strict_equals_string (v : JsValue) (s : string) : bool :=
  match v with
  | JsString s' => bool_decide (s' = s)
  | _ => false
  end.

(** [ToString], as applied by a template literal.  A plain object prints
    through [Object.prototype.toString] unless it shadows [toString] with
    an own (data, hence not callable) property, in which case
    [OrdinaryToPrimitive] finds nothing that yields a primitive and throws.
    An array prints through [join], where [undefined] and [null] elements
    print as nothing. *)
Fixpoint ToString (v : JsValue) : Completion string :=
  match v with
  | JsUndefined => Normal "undefined"
  | JsNull => Normal "null"
  | JsBool b => Normal (if b then "true" else "false")
  | JsNumber repr => Normal repr
  | JsString s => Normal s
  | JsArray elems =>
      (fix join (first : bool) (l : list JsValue) : Completion string :=
         match l with
         | [] => Normal ""
         | x :: l' =>
             match
               match x with
               | JsUndefined | JsNull => Normal ""
               | _ => ToString x
               end
             with
             | Throw e => Throw e
             | Normal sx =>
                 match join false l' with
                 | Throw e => Throw e
                 | Normal rest =>
                     Normal ((if first then "" else ",") +:+ sx +:+ rest)
                 end
             end
         end) true elems
  | JsObject props =>
      match own_property props "toString" with
      | Some _ => Throw TypeError
      | None => Normal "[object Object]"
      end
  end.

(** ** [formatToolMessage] *)

Definition formatToolMessage (toolName : string) (args : JsValue)
  : Completion string :=
  if negb (ToBoolean args) then Normal toolName
  else if bool_decide (toolName = "str_replace_editor") then
    let command := Get args "command" in
    let path := Get args "path" in
    if strict_equals_string command "create" then
      p ← ToString path; Normal ("Creating " +:+ p)
    else if strict_equals_string command "str_replace"
            || strict_equals_string command "insert" then
      p ← ToString path; Normal ("Editing " +:+ p)
    else if strict_equals_string command "view" then
      p ← ToString path; Normal ("Viewing " +:+ p)
    else Normal toolName
  else if bool_decide (toolName = "file_manager") then
    let command := Get args "command" in
    let path := Get args "path" in
    let new_path := Get args "new_path" in
    if strict_equals_string command "rename" then
      p ← ToString path;
      q ← ToString new_path;
      Normal ("Renaming " +:+ p +:+ " → " +:+ q)
    else if strict_equals_string command "delete" then
      p ← ToString path; Normal ("Deleting " +:+ p)
    else Normal toolName
  else Normal toolName.

(** ** The [ToolInvocationBadge] component *)

Record ToolInvocationBadgeProps : Type := {
  toolName : string;
  args : JsValue;          (* [args?: any]; absent is [undefined] *)
  state : option string;   (* [state?: string] *)
}.

(** What the component puts before the message: the emerald dot of a
    completed call, or the spinning loader. *)
Inductive Indicator : Type :=
  | CompletedDot
  | Spinner.

Record Badge : Type := {
  indicator : Indicator;
  text : string;
}.

Definition isCompleted (state : option string) : bool :=
  bool_decide (state = Some "result").

Definition ToolInvocationBadge (props : ToolInvocationBadgeProps)
  : Completion Badge :=
  message ← formatToolMessage props.(toolName) props.(args);
  Normal {| indicator := if isCompleted props.(state) then CompletedDot else Spinner;
            text := message |}.

(** * The file tree behind the tools *)

(** ** Errors *)

(** Modelled from the spec: the error taxonomy of section 7 for the tree
    and tool layer, whose declarations ([src/lib/file-system.ts]) are
    missing. *)
Inductive TreeError : Type :=
  | InvalidPathError
  | AlreadyExistsError
  | NotFoundError
  | TypeMismatchError
  | AmbiguousMatchError
  | NotFoundInFileError
  | OutOfRangeError
  | InvalidArgumentsError.

(** What a tree operation ends in: its value, or the error it fails
    with. *)
Inductive Result (A : Type) : Type :=
  | Ok (a : A)
  | Err (e : TreeError).
Arguments Ok {A} a.
Arguments Err {A} e.

#[global] Instance Result_ret : MRet Result := λ A a, Ok a.
#[global] Instance Result_bind : MBind Result := λ A B f m,
  match m with
  | Ok a => f a
  | Err e => Err e
  end.

(** ** Strings *)

Definition slash : ascii := "/"%char.
Definition newline : ascii := "010"%char.

(** The pieces of [s] between occurrences of [sep]; never empty. *)
Fixpoint split_on (sep : ascii) (s : string) : list string :=
  match s with
  | EmptyString => [""]
  | String c s' =>
      if bool_decide (c = sep) then "" :: split_on sep s'
      else match split_on sep s' with
           | [] => [String c ""]
           | seg :: rest => String c seg :: rest
           end
  end.

Fixpoint string_drop (n : nat) (s : string) : string :=
  match n, s with
  | S n', String _ s' => string_drop n' s'
  | _, _ => s
  end.

(** ** Path normalizer *)

(** The segments of the canonical form: [resolve] walks the segments of the
    input left to right with the segments kept so far, innermost first;
    empty and [.] segments are dropped, [..] drops the last one kept and is
    an error when there is none. *)
Fixpoint resolve (segs : list string) (kept : list string) : option (list string) :=
  match segs with
  | [] => Some (rev kept)
  | seg :: rest =>
      if bool_decide (seg = "") || bool_decide (seg = ".") then resolve rest kept
      else if bool_decide (seg = "..") then
        match kept with
        | [] => None
        | _ :: kept' => resolve rest kept'
        end
      else resolve rest (seg :: kept)
  end.

Fixpoint join_segments (segs : list string) : string :=
  match segs with
  | [] => ""
  | seg :: rest => String slash (seg +:+ join_segments rest)
  end.

Definition render (segs : list string) : string :=
  match segs with
  | [] => "/"
  | _ => join_segments segs
  end.

(** Modelled from the spec: [normalize], the path normalizer of the missing
    [src/lib/file-system.ts], after section 4.1: "prefix with [/] if
    missing; collapse duplicate separators; resolve [.] segments by
    removal; reject or resolve [..] segments conservatively (escaping above
    root is an error); strip a trailing separator except for the root
    itself", failing with [InvalidPathError] "on empty input or on attempts
    to escape the root". *)
Definition normalize (input : string) : Result string :=
  if bool_decide (input = "") then Err InvalidPathError
  else match resolve (split_on slash input) [] with
       | None => Err InvalidPathError
       | Some segs => Ok (render segs)
       end.

(** The segments of a normalized path, and the paths of the directories
    above it, outermost first ("a node is inside a directory solely because
    its path is prefixed by that directory's path plus separator"). *)
Definition path_segments (p : string) : list string :=
  filter (λ seg, seg ≠ "") (split_on slash p).

Fixpoint proper_prefixes {A : Type} (l : list A) : list (list A) :=
  match l with
  | [] => []
  | x :: l' => [] :: map (cons x) (proper_prefixes l')
  end.

Definition ancestors (p : string) : list string :=
  render <$> proper_prefixes (path_segments p).

Definition parent (p : string) : string :=
  render (removelast (path_segments p)).

Definition dir_prefix (dir : string) : string :=
  if bool_decide (dir = "/") then "/" else dir +:+ "/".

Definition in_subtree (dir k : string) : bool :=
  bool_decide (k = dir) || String.prefix (dir_prefix dir) k.

(** ** Virtual file tree *)

(** Modelled from the spec: the [type] of a Node, "[file | directory]"
    (section 3), declared in the missing [src/lib/file-system.ts]. *)
Inductive NodeType : Type :=
  | file
  | directory.

(** Modelled from the spec: the Node of section 3, whose declaration
    ([src/lib/file-system.ts]) is missing.  Its [path] is the key it is
    stored under; the [children] of a directory are computed from the keys
    ("directory containment [is] a computed relation, not a stored
    back-reference"). *)
Inductive Node : Type :=
  | FileNode (content : string)
  | DirectoryNode.



(** Modelled from the spec: the state of the missing [VirtualFileSystem]
    class, "the full set of Nodes, keyed by normalized path in a mapping
    (keys unique)". *)
Abbreviation Tree := (gmap string Node).

Definition empty_tree : Tree := {[ "/" := DirectoryNode ]}.

Definition children (t : Tree) (dir : string) : gset string :=
  dom (filter (λ kv, kv.1 ≠ dir ∧ parent kv.1 = dir) t).


(** Tree operations run against the one mutable map: a computation takes
    the tree, and gives back a result or an error together with the tree as
    it has left it. *)
Definition VFS (A : Type) : Type := Tree → Result A * Tree.

#[global] Instance VFS_ret : MRet VFS := λ A a t, (Ok a, t).
#[global] Instance VFS_bind : MBind VFS := λ A B f m t,
  match m t with
  | (Ok a, t') => f a t'
  | (Err e, t') => (Err e, t')
  end.

Definition fail {A : Type} (e : TreeError) : VFS A := λ t, (Err e, t).
Definition lift {A : Type} (r : Result A) : VFS A := λ t, (r, t).
Definition getNode (p : string) : VFS (option Node) := λ t, (Ok (t !! p), t).
Definition setNode (p : string) (n : Node) : VFS unit := λ t, (Ok (), <[p := n]> t).
Definition modify (f : Tree → Tree) : VFS unit := λ t, (Ok (), f t).

Fixpoint forEach {A : Type} (f : A → VFS unit) (l : list A) : VFS unit :=
  match l with
  | [] => mret ()
  | x :: l' => f x ≫= λ _, forEach f l'
  end.

Definition ensureDirectoryNode (p : string) : VFS unit :=
  n ← getNode p;
  match n with
  | None => setNode p DirectoryNode
  | Some _ => mret ()
  end.

Definition materializeAncestors (p : string) : VFS unit :=
  forEach ensureDirectoryNode (ancestors p).

(** The operations of section 4.2 follow.  Each one makes its checks first
    and touches the map afterwards. *)

(** Modelled from the spec: [createFile] of the missing
    [src/lib/file-system.ts]: "fails with [AlreadyExistsError] if a node
    exists at path with a conflicting type; otherwise creates the file and
    materializes any missing ancestor directories". *)
Definition createFile (path content : string) : VFS unit :=
  p ← lift (normalize path);
  n ← getNode p;
  match n with
  | Some DirectoryNode => fail AlreadyExistsError
  | _ => materializeAncestors p ≫= λ _, setNode p (FileNode content)
  end.

(** Modelled from the spec: the directory counterpart of [createFile] in
    the missing [src/lib/file-system.ts], used when a tree is rebuilt
    ("directory creation is idempotent and path-derived"). *)
Definition createDirectory (path : string) : VFS unit :=
  p ← lift (normalize path);
  n ← getNode p;
  match n with
  | Some (FileNode _) => fail AlreadyExistsError
  | Some DirectoryNode => mret ()
  | None => materializeAncestors p ≫= λ _, setNode p DirectoryNode
  end.

(** Modelled from the spec: [updateFile] of the missing
    [src/lib/file-system.ts]: "fails with [NotFoundError] if no file exists
    there, or [TypeMismatchError] if the path names a directory". *)
Definition updateFile (path content : string) : VFS unit :=
  p ← lift (normalize path);
  n ← getNode p;
  match n with
  | None => fail NotFoundError
  | Some DirectoryNode => fail TypeMismatchError
  | Some (FileNode _) => setNode p (FileNode content)
  end.

(** Modelled from the spec: [viewFile] of the missing
    [src/lib/file-system.ts]: "returns content; fails with [NotFoundError]
    if absent or if path names a directory". *)
Definition viewFile (path : string) : VFS string :=
  p ← lift (normalize path);
  n ← getNode p;
  match n with
  | Some (FileNode content) => mret content
  | _ => fail NotFoundError
  end.

(** Modelled from the spec: [deleteFile] and [deleteDirectory] of the
    missing [src/lib/file-system.ts]: "directory deletion is recursive;
    fails with [NotFoundError] if the path does not exist". *)
Definition deleteFile (path : string) : VFS unit :=
  p ← lift (normalize path);
  n ← getNode p;
  match n with
  | None => fail NotFoundError
  | Some _ => modify (delete p)
  end.

(** Modelled from the spec: see [deleteFile]; here the nodes below the path
    go with it. *)
Definition deleteDirectory (path : string) : VFS unit :=
  p ← lift (normalize path);
  n ← getNode p;
  match n with
  | None => fail NotFoundError
  | Some _ => modify (filter (λ kv, in_subtree p kv.1 = false))
  end.

(** The key a node of the subtree at [old] takes when the subtree moves to
    [new], and the tree after the move. *)
Definition rekey (old new k : string) : string :=
  if bool_decide (k = old) then new
  else dir_prefix new +:+ string_drop (String.length (dir_prefix old)) k.

Definition move (old new : string) (t : Tree) : Tree :=
  list_to_map (prod_map (rekey old new) id
                 <$> map_to_list (filter (λ kv, in_subtree old kv.1 = true) t))
  ∪ filter (λ kv, in_subtree old kv.1 = false) t.

(** Modelled from the spec: [rename] of the missing
    [src/lib/file-system.ts]: "fails if [oldPath] does not exist, or
    [newPath] already exists (no silent overwrite); for a directory, every
    descendant's path is rewritten to keep the subtree under the new
    prefix". *)
Definition rename (oldPath newPath : string) : VFS unit :=
  p ← lift (normalize oldPath);
  q ← lift (normalize newPath);
  n ← getNode p;
  match n with
  | None => fail NotFoundError
  | Some _ =>
      m ← getNode q;
      match m with
      | Some _ => fail AlreadyExistsError
      | None => modify (move p q)
      end
  end.

(** The number of positions at which [search] starts in [s], and [s] with
    the first of them rewritten. *)
Fixpoint count_occurrences (search s : string) : nat :=
  (if String.prefix search s then 1 else 0) +
  match s with
  | EmptyString => 0
  | String _ s' => count_occurrences search s'
  end.

Fixpoint replace_first (search replacement s : string) : string :=
  if String.prefix search s then
    replacement +:+ string_drop (String.length search) s
  else match s with
       | EmptyString => EmptyString
       | String c s' => String c (replace_first search replacement s')
       end.

(** Modelled from the spec: [replaceInFile] of the missing
    [src/lib/file-system.ts]: "fails with [NotFoundError] if path absent;
    fails with [AmbiguousMatchError] if [search] occurs more than once
    (replacement must be unambiguous) or [NotFoundInFileError] if zero
    occurrences; otherwise replaces the unique occurrence". *)
Definition replaceInFile (path search replacement : string) : VFS unit :=
  p ← lift (normalize path);
  n ← getNode p;
  match n with
  | None => fail NotFoundError
  | Some DirectoryNode => fail TypeMismatchError
  | Some (FileNode content) =>
      match count_occurrences search content with
      | 0 => fail NotFoundInFileError
      | 1 => setNode p (FileNode (replace_first search replacement content))
      | _ => fail AmbiguousMatchError
      end
  end.

Fixpoint join_lines (lines : list string) : string :=
  match lines with
  | [] => ""
  | [l] => l
  | l :: rest => l +:+ String newline (join_lines rest)
  end.

(** Modelled from the spec: [insertInFile] of the missing
    [src/lib/file-system.ts]: "fails with [NotFoundError] if path absent or
    [OutOfRangeError] if the line index exceeds file length". *)
Definition insertInFile (path : string) (afterLine : nat) (text : string) : VFS unit :=
  p ← lift (normalize path);
  n ← getNode p;
  match n with
  | None => fail NotFoundError
  | Some DirectoryNode => fail TypeMismatchError
  | Some (FileNode content) =>
      let lines := split_on newline content in
      if bool_decide (length lines < afterLine)%nat then fail OutOfRangeError
      else setNode p (FileNode
             (join_lines (take afterLine lines ++ text :: drop afterLine lines)))
  end.

(** Modelled from the spec: [list] of the missing [src/lib/file-system.ts]:
    "produces the full path set for enumeration/serialization". *)
Definition list_paths : VFS (gset string) := λ t, (Ok (dom t), t).

(** The operations that change the tree, as one type. *)
Inductive Mutation : Type :=
  | CreateFile (path content : string)
  | CreateDirectory (path : string)
  | UpdateFile (path content : string)
  | DeleteFile (path : string)
  | DeleteDirectory (path : string)
  | RenameNode (oldPath newPath : string)
  | ReplaceInFile (path search replacement : string)
  | InsertInFile (path : string) (afterLine : nat) (text : string).

Definition perform (m : Mutation) : VFS unit :=
  match m with
  | CreateFile path content => createFile path content
  | CreateDirectory path => createDirectory path
  | UpdateFile path content => updateFile path content
  | DeleteFile path => deleteFile path
  | DeleteDirectory path => deleteDirectory path
  | RenameNode oldPath newPath => rename oldPath newPath
  | ReplaceInFile path search replacement => replaceInFile path search replacement
  | InsertInFile path afterLine text => insertInFile path afterLine text
  end.

(** ** Serializer *)

(** Modelled from the spec: the Serialized Snapshot of sections 3 and 6,
    whose declaration is missing: a "mapping from absolute path string to
    [{type, content?}]". *)
Record SnapshotNode : Type := {
  snap_type : NodeType;
  snap_content : option string;
}.

Abbreviation Snapshot := (gmap string SnapshotNode).



Definition restore (entry : string * SnapshotNode) : VFS unit :=
  match snap_type entry.2 with
  | file => createFile entry.1 (default "" (snap_content entry.2))
  | directory => createDirectory entry.1
  end.

(** Modelled from the spec: [deserialize] ([deserializeFromNodes] of the
    missing [src/lib/file-system.ts]): "rebuilds a Virtual File Tree by
    creating directories implied by path prefixes and files with their
    stored content, in any order", from a tree that holds the root only. *)
Definition deserialize (snap : Snapshot) : Result Tree :=
  match forEach restore (map_to_list snap) empty_tree with
  | (Ok _, t) => Ok t
  | (Err e, _) => Err e
  end.

(** ** Tool layer *)

(** Modelled from the spec: the commands of the two missing tools
    ([src/lib/tools/str-replace.ts], [src/lib/tools/file-manager.ts]), the
    "tagged-variant command type per tool family ([Create | StrReplace |
    Insert | View] / [Rename | Delete]), validated on construction" of
    sections 4.3 and 9. *)
Module Editor.
Inductive Command : Type :=
  | Create (path file_text : string)
  | StrReplace (path old_str new_str : string)
  | Insert (path : string) (insert_line : nat) (new_str : string)
  | View (path : string).
End Editor.

Module FileManager.
Inductive Command : Type :=
  | Rename (path new_path : string)
  | Delete (path : string).
End FileManager.

Inductive ToolCommand : Type :=
  | EditorCall (c : Editor.Command)
  | FileManagerCall (c : FileManager.Command).

Definition digit_of (c : ascii) : option nat :=
  let n := nat_of_ascii c in
  if bool_decide (48 ≤ n ≤ 57)%nat then Some (n - 48)%nat else None.

Fixpoint parse_digits (acc : nat) (s : string) : option nat :=
  match s with
  | EmptyString => Some acc
  | String c s' => d ← digit_of c; parse_digits (10 * acc + d)%nat s'
  end.

(** The line number a Number stands for, when it prints as a plain run of
    digits. *)
Definition parse_nat (repr : string) : option nat :=
  if bool_decide (repr = "") then None else parse_digits 0 repr.

Definition string_field (args : JsValue) (k : string) : Result string :=
  match Get args k with
  | JsString s => Ok s
  | _ => Err InvalidArgumentsError
  end.

Definition line_field (args : JsValue) (k : string) : Result nat :=
  match Get args k with
  | JsNumber repr =>
      match parse_nat repr with
      | Some n => Ok n
      | None => Err InvalidArgumentsError
      end
  | _ => Err InvalidArgumentsError
  end.

(** Modelled from the spec: the argument check of the missing tools: "input
    validation precedes any tree mutation: missing required fields fail
    with [InvalidArgumentsError] before touching the tree"; the required
    fields are those of section 4.3. *)
Definition validate (toolName : string) (args : JsValue) : Result ToolCommand :=
  if bool_decide (toolName = "str_replace_editor") then
    command ← string_field args "command";
    path ← string_field args "path";
    if bool_decide (command = "create") then
      file_text ← string_field args "file_text";
      Ok (EditorCall (Editor.Create path file_text))
    else if bool_decide (command = "str_replace") then
      old_str ← string_field args "old_str";
      new_str ← string_field args "new_str";
      Ok (EditorCall (Editor.StrReplace path old_str new_str))
    else if bool_decide (command = "insert") then
      insert_line ← line_field args "insert_line";
      new_str ← string_field args "new_str";
      Ok (EditorCall (Editor.Insert path insert_line new_str))
    else if bool_decide (command = "view") then
      Ok (EditorCall (Editor.View path))
    else Err InvalidArgumentsError
  else if bool_decide (toolName = "file_manager") then
    command ← string_field args "command";
    path ← string_field args "path";
    if bool_decide (command = "rename") then
      new_path ← string_field args "new_path";
      Ok (FileManagerCall (FileManager.Rename path new_path))
    else if bool_decide (command = "delete") then
      Ok (FileManagerCall (FileManager.Delete path))
    else Err InvalidArgumentsError
  else Err InvalidArgumentsError.

(** Modelled from the spec: [delete] of the missing file-manager tool,
    which removes whatever the path names. *)
Definition removePath (path : string) : VFS unit :=
  p ← lift (normalize path);
  n ← getNode p;
  match n with
  | Some DirectoryNode => deleteDirectory path
  | _ => deleteFile path
  end.

(** Modelled from the spec: the bodies of the two missing tools, "thin,
    validated adapter[s]" over the tree operations.  A call gives back
    what it has read, if it reads. *)
Definition execute (cmd : ToolCommand) : VFS (option string) :=
  match cmd with
  | EditorCall (Editor.Create path file_text) =>
      createFile path file_text ≫= λ _, mret None
  | EditorCall (Editor.StrReplace path old_str new_str) =>
      replaceInFile path old_str new_str ≫= λ _, mret None
  | EditorCall (Editor.Insert path insert_line new_str) =>
      insertInFile path insert_line new_str ≫= λ _, mret None
  | EditorCall (Editor.View path) =>
      content ← viewFile path; mret (Some content)
  | FileManagerCall (FileManager.Rename path new_path) =>
      rename path new_path ≫= λ _, mret None
  | FileManagerCall (FileManager.Delete path) =>
      removePath path ≫= λ _, mret None
  end.

Record ToolResult : Type := {
  success : bool;
  message : string;
}.

(** Modelled from the spec: what the [catch] of the missing tool layer can
    be handed, and the "human-readable reason" it reports for it. *)
Inductive Thrown : Type :=
  | TreeFault (e : TreeError)
  | JsFault (e : JsError).

Definition error_message (x : Thrown) : string :=
  match x with
  | TreeFault InvalidPathError => "Invalid path"
  | TreeFault AlreadyExistsError => "Path already exists"
  | TreeFault NotFoundError => "Path not found"
  | TreeFault TypeMismatchError => "Path is a directory"
  | TreeFault AmbiguousMatchError => "Search string occurs more than once"
  | TreeFault NotFoundInFileError => "Search string not found in file"
  | TreeFault OutOfRangeError => "Line number out of range"
  | TreeFault InvalidArgumentsError => "Invalid arguments"
  | JsFault TypeError => "Type error"
  end.

Definition failed (x : Thrown) : ToolResult :=
  {| success := false; message := error_message x |}.

(** Modelled from the spec: a call of one of the two missing tools, after
    sections 4.3 and 7.  "Each tool call returns a [{success: boolean,
    message: string}] result; on internal tree errors, the tool layer
    catches them and reports [{success: false, message: <human-readable
    reason>}]".  The message of a successful call is what it has read or
    else the summary line of [formatToolMessage] (the scenario of section 8
    has the rename call answer with that line). *)
Definition run_tool (toolName : string) (args : JsValue) (t : Tree)
  : ToolResult * Tree :=
  match validate toolName args with
  | Err e => (failed (TreeFault e), t)
  | Ok cmd =>
      match formatToolMessage toolName args with
      | Throw x => (failed (JsFault x), t)
      | Normal summary =>
          match execute cmd t with
          | (Err e, t') => (failed (TreeFault e), t')
          | (Ok out, t') =>
              ({| success := true; message := default summary out |}, t')
          end
      end
  end.




(** ** Vocabulary of the statements *)

Fixpoint occurs (c : ascii) (s : string) : bool :=
  match s with
  | EmptyString => false
  | String c' s' => bool_decide (c' = c) || occurs c s'
  end.

(** A segment as a normalized path can hold it: not empty, not a dot
    segment, free of separators. *)
Definition plain_segment (seg : string) : Prop :=
  seg ≠ "" ∧ seg ≠ "." ∧ seg ≠ ".." ∧ occurs slash seg = false.

(** [search] occurs in [content] right after [pre]. *)
Definition occurs_after (search content pre : string) : Prop :=
  ∃ post, content = pre +:+ search +:+ post.


(** The arguments of the calls of the rename scenario. *)
Definition rename_args : JsValue :=
  JsObject [("command", JsString "rename"); ("path", JsString "/old.js");
            ("new_path", JsString "/new.js")].

Definition view_args (path : string) : JsValue :=
  JsObject [("command", JsString "view"); ("path", JsString path)].

(** Small trees to run the operations on. *)
Definition scenario_tree : Tree :=
  <["/old.js" := FileNode "export default 1"]> empty_tree.

Definition project_tree : Tree :=
  <["/components/Card.jsx" := FileNode "export const Card = () => null"]>
    (<["/components" := DirectoryNode]>
       (<["/App.jsx" := FileNode "export default function App(){return null}"]>
          empty_tree)).

Definition twice_tree : Tree :=
  <["/a.js" := FileNode "foo bar foo"]> empty_tree.




(** ** Vocabulary for printing *)

(** [v] can be converted to a string: no object met on the way (in [v]
    itself or in the arrays it is made of) shadows [toString]. *)
Fixpoint printable (v : JsValue) : bool :=
  match v with
  | JsArray elems =>
      (fix all (l : list JsValue) : bool :=
         match l with
         | [] => true
         | x :: l' => printable x && all l'
         end) elems
  | JsObject props =>
      match own_property props "toString" with
      | Some _ => false
      | None => true
      end
  | _ => true
  end.

(** The calls whose message prints [path], and the one that prints
    [new_path] as well. *)
Definition prints_path (toolName : string) (command : JsValue) : bool :=
  bool_decide (toolName = "str_replace_editor")
  && (strict_equals_string command "create"
      || strict_equals_string command "str_replace"
      || strict_equals_string command "insert"
      || strict_equals_string command "view")
  || bool_decide (toolName = "file_manager")
     && (strict_equals_string command "rename"
         || strict_equals_string command "delete").

Definition prints_new_path (toolName : string) (command : JsValue) : bool :=
  bool_decide (toolName = "file_manager") && strict_equals_string command "rename".

(** The [join] inside [ToString], on its own. *)
Fixpoint join_elements (first : bool) (l : list JsValue) : Completion string :=
  match l with
  | [] => Normal ""
  | x :: l' =>
      match
        match x with
        | JsUndefined | JsNull => Normal ""
        | _ => ToString x
        end
      with
      | Throw e => Throw e
      | Normal sx =>
          match join_elements false l' with
          | Throw e => Throw e
          | Normal rest => Normal ((if first then "" else ",") +:+ sx +:+ rest)
          end
      end
  end.

(** Unfolds the plumbing of [VFS] computations. *)
Ltac vfs_unfold :=
  unfold mbind, VFS_bind, mret, VFS_ret, lift, getNode, fail, setNode, modify in *.

(** * Properties of the badge *)

Section badge.
Implicit Types (toolName : string) (args : JsValue) (state : option string).

Lemma strict_equals_string_spec (v : JsValue) (s : string) :
  strict_equals_string v s = true ↔ v = JsString s.
Proof.
  destruct v; simpl; try (split; [discriminate | congruence]).
  rewrite bool_decide_eq_true. split; congruence.
Qed.

Lemma strict_equals_string_false (v : JsValue) (s : string) :
  v ≠ JsString s → strict_equals_string v s = false.
Proof.
  intros Hne. apply not_true_is_false. by rewrite strict_equals_string_spec.
Qed.

(** A falsy [args] has no fields to speak of, and the early return never
    looks at them. *)
Lemma formatToolMessage_falsy toolName args :
  ToBoolean args = false → formatToolMessage toolName args = Normal toolName.
Proof. unfold formatToolMessage. by intros ->. Qed.

(** The message is decided by the tool name and three reads of [args]. *)
Lemma formatToolMessage_fields toolName args1 args2 :
  ToBoolean args1 = true → ToBoolean args2 = true →
  Get args1 "command" = Get args2 "command" →
  Get args1 "path" = Get args2 "path" →
  Get args1 "new_path" = Get args2 "new_path" →
  formatToolMessage toolName args1 = formatToolMessage toolName args2.
Proof.
  intros T1 T2 Hc Hp Hn. unfold formatToolMessage.
  by rewrite T1, T2, Hc, Hp, Hn.
Qed.

(** With no command to match, a truthy [args] falls through both
    switches. *)
Lemma formatToolMessage_no_command toolName args :
  Get args "command" = JsUndefined →
  formatToolMessage toolName args = Normal toolName.
Proof.
  intros Hc. unfold formatToolMessage. rewrite Hc. simpl.
  by repeat case_match.
Qed.

Lemma Get_falsy args (k : string) :
  ToBoolean args = false → Get args k = JsUndefined.
Proof. by destruct args. Qed.
End badge.

(** C10: for every path [p], the editor commands read "Creating p",
    "Editing p" (both for [str_replace] and for [insert]) and "Viewing p",
    so a [str_replace] and an [insert] on the same path display alike.
    Fields of [args] beyond [command] and [path] play no part. *)
Theorem formatToolMessage_editor_commands (p : string) (others : list (string * JsValue)) :
  let call (command : string) :=
    formatToolMessage "str_replace_editor"
      (JsObject (("command", JsString command) :: ("path", JsString p) :: others)) in
  call "create" = Normal ("Creating " +:+ p) ∧
  call "str_replace" = Normal ("Editing " +:+ p) ∧
  call "insert" = Normal ("Editing " +:+ p) ∧
  call "view" = Normal ("Viewing " +:+ p) ∧
  call "str_replace" = call "insert".
Proof. by repeat split. Qed.

(** C8, as amended: [formatToolMessage] gives back the tool name itself,
    as a value and not a throw, whenever [args] is absent (or falsy in any
    other way), the tool is neither of the two known ones, or the [command]
    is none of those the tool knows.  (Beyond these cases it is not total:
    a path that cannot be printed makes it throw.) *)
Theorem formatToolMessage_fallback (toolName : string) (args : JsValue) :
  ToBoolean args = false
  ∨ (toolName ≠ "str_replace_editor" ∧ toolName ≠ "file_manager")
  ∨ (toolName = "str_replace_editor" ∧
     ∀ c, c ∈ ["create"; "str_replace"; "insert"; "view"] →
          Get args "command" ≠ JsString c)
  ∨ (toolName = "file_manager" ∧
     ∀ c, c ∈ ["rename"; "delete"] → Get args "command" ≠ JsString c) →
  formatToolMessage toolName args = Normal toolName.
Proof.
  intros [Hfalsy | [[He Hf] | [[-> Hc] | [-> Hc]]]].
  - by apply formatToolMessage_falsy.
  - unfold formatToolMessage.
    rewrite (bool_decide_eq_false_2 _ He), (bool_decide_eq_false_2 _ Hf).
    by case_match.
  - unfold formatToolMessage. case_match; [done |]. simpl.
    rewrite !strict_equals_string_false; [done | apply Hc; set_solver ..].
  - unfold formatToolMessage. case_match; [done |]. simpl.
    rewrite !strict_equals_string_false; [done | apply Hc; set_solver ..].
Qed.

Lemma formatToolMessage_fallback_witness :
  formatToolMessage "str_replace_editor"
    (JsObject [("command", JsString "unknown"); ("path", JsString "/test.js")])
  = Normal "str_replace_editor".
Proof.
  apply formatToolMessage_fallback. right; right; left. split; [reflexivity |].
  intros c Hc. simpl. intros [= <-].
  repeat (apply elem_of_cons in Hc as [Hc | Hc]; [discriminate Hc |]).
  by apply elem_of_nil in Hc.
Defined.

(** C8, as stated, fails: [formatToolMessage] is not total.  With the
    command [create] and a [path] that is an object shadowing [toString],
    the template literal of line 19 throws a [TypeError]. *)
Lemma formatToolMessage_not_total :
  formatToolMessage "str_replace_editor"
    (JsObject [("command", JsString "create");
               ("path", JsObject [("toString", JsNumber "1")])])
  = Throw TypeError ∧
  ¬ (∀ (toolName : string) (args : JsValue),
       ∃ m, formatToolMessage toolName args = Normal m).
Proof.
  split; [reflexivity |].
  intros Htotal.
  destruct (Htotal "str_replace_editor"
              (JsObject [("command", JsString "create");
                         ("path", JsObject [("toString", JsNumber "1")])]))
    as [m Hm].
  discriminate Hm.
Qed.

(** C9: when the message can be formed, the badge shows it next to the
    completed dot exactly if [state] is the string "result"; under any
    other state, "pending", "loading", "error" or none at all, it shows the
    spinner. *)
Theorem badge_completed_iff_result
    (toolName : string) (args : JsValue) (state : option string) (msg : string) :
  formatToolMessage toolName args = Normal msg →
  ∃ b, ToolInvocationBadge {| toolName := toolName; args := args; state := state |}
       = Normal b ∧
       text b = msg ∧
       (indicator b = CompletedDot ↔ state = Some "result") ∧
       (state ≠ Some "result" → indicator b = Spinner).
Proof.
  intros Hmsg. unfold ToolInvocationBadge. simpl. rewrite Hmsg. simpl.
  eexists. split; [reflexivity |]. simpl. unfold isCompleted.
  split; [done |]. case_bool_decide; split; try done.
Qed.

Lemma badge_completed_iff_result_witness :
  ∃ b, ToolInvocationBadge
         {| toolName := "str_replace_editor";
            args := JsObject [("command", JsString "create"); ("path", JsString "/App.jsx")];
            state := Some "error" |}
       = Normal b ∧
       text b = "Creating /App.jsx" ∧
       (indicator b = CompletedDot ↔ Some "error" = Some "result") ∧
       (Some "error" ≠ Some "result" → indicator b = Spinner).
Proof.
  apply (badge_completed_iff_result "str_replace_editor"
           (JsObject [("command", JsString "create"); ("path", JsString "/App.jsx")])
           (Some "error") "Creating /App.jsx").
  reflexivity.
Defined.

(** C2: the text of the badge is decided by the tool name and the
    [command], [path] and [new_path] of the arguments (an [args] that is
    absent has none of them: each reads as [undefined]).  Two invocations
    that agree on these show the same text (or fail to render alike)
    whatever their [state]; the outcome of the call is not among the props
    at all. *)
Theorem badge_text_depends_on_fields
    (toolName : string) (args1 args2 : JsValue) (state1 state2 : option string) :
  Get args1 "command" = Get args2 "command" →
  Get args1 "path" = Get args2 "path" →
  Get args1 "new_path" = Get args2 "new_path" →
  text <$> ToolInvocationBadge {| toolName := toolName; args := args1; state := state1 |}
  = text <$> ToolInvocationBadge {| toolName := toolName; args := args2; state := state2 |}.
Proof.
  intros Hc Hp Hn.
  assert (formatToolMessage toolName args1 = formatToolMessage toolName args2) as Heq.
  { destruct (ToBoolean args1) eqn:T1, (ToBoolean args2) eqn:T2.
    - by apply formatToolMessage_fields.
    - rewrite (formatToolMessage_falsy _ args2 T2).
      apply formatToolMessage_no_command. rewrite Hc. by apply Get_falsy.
    - rewrite (formatToolMessage_falsy _ args1 T1). symmetry.
      apply formatToolMessage_no_command. rewrite <- Hc. by apply Get_falsy.
    - by rewrite !formatToolMessage_falsy. }
  unfold ToolInvocationBadge. simpl. rewrite Heq.
  by destruct (formatToolMessage toolName args2).
Qed.

Lemma badge_text_depends_on_fields_witness :
  text <$> ToolInvocationBadge
             {| toolName := "str_replace_editor";
                args := JsObject [("command", JsString "create"); ("path", JsString "/App.jsx")];
                state := Some "loading" |}
  = text <$> ToolInvocationBadge
               {| toolName := "str_replace_editor";
                  args := JsObject [("path", JsString "/App.jsx"); ("file_text", JsString "x");
                                    ("command", JsString "create")];
                  state := Some "result" |}.
Proof. by apply badge_text_depends_on_fields. Defined.

(** * Properties of the path normalizer *)

Section normalizer.
Implicit Types (s seg : string) (segs kept : list string).

Lemma append_empty_r s : s +:+ "" = s.
Proof. induction s as [| c s IH]; simpl; [done | f_equal; exact IH]. Qed.

Lemma append_assoc s1 s2 s3 : (s1 +:+ s2) +:+ s3 = s1 +:+ (s2 +:+ s3).
Proof. induction s1 as [| c s1 IH]; simpl; [done | f_equal; exact IH]. Qed.

Lemma split_on_not_nil (sep : ascii) s : split_on sep s ≠ [].
Proof.
  destruct s as [| c s]; simpl; [done |].
  case_bool_decide; [done |]. by destruct (split_on sep s).
Qed.

Lemma split_on_no_sep (sep : ascii) s :
  occurs sep s = false → split_on sep s = [s].
Proof.
  induction s as [| c s IH]; simpl; [done |].
  intros [Hc Hs]%orb_false_iff. rewrite Hc, (IH Hs). done.
Qed.

Lemma split_on_app (sep : ascii) seg s :
  occurs sep seg = false →
  split_on sep (seg +:+ String sep s) = seg :: split_on sep s.
Proof.
  induction seg as [| c seg IH]; simpl.
  - intros _. by rewrite bool_decide_eq_true_2.
  - intros [Hc Hs]%orb_false_iff. by rewrite Hc, (IH Hs).
Qed.

Lemma split_on_pieces (sep : ascii) s :
  Forall (λ seg, occurs sep seg = false) (split_on sep s).
Proof.
  induction s as [| c s IH]; simpl.
  - by repeat constructor.
  - case_bool_decide as Hc.
    + by constructor.
    + destruct (split_on sep s) as [| seg rest]; simpl.
      * repeat constructor. simpl. by rewrite bool_decide_eq_false_2.
      * inversion IH; subst. constructor; [| done].
        simpl. by rewrite bool_decide_eq_false_2.
Qed.

Lemma split_on_join seg segs :
  occurs slash seg = false → Forall plain_segment segs →
  split_on slash (seg +:+ join_segments segs) = seg :: segs.
Proof.
  intros Hseg Hsegs. revert seg Hseg.
  induction Hsegs as [| r rest Hr _ IH]; intros seg Hseg; cbn [join_segments].
  - rewrite append_empty_r. by apply split_on_no_sep.
  - rewrite split_on_app by done. f_equal. apply IH. apply Hr.
Qed.

Lemma split_on_render segs :
  Forall plain_segment segs →
  split_on slash (render segs) = "" :: (if segs is [] then [""] else segs).
Proof.
  intros Hsegs. destruct segs as [| seg rest]; [done |].
  change (render (seg :: rest)) with ("" +:+ join_segments (seg :: rest)).
  by apply split_on_join.
Qed.

Lemma resolve_plain segs kept :
  Forall plain_segment segs → resolve segs kept = Some (rev kept ++ segs)%list.
Proof.
  intros Hsegs. revert kept.
  induction Hsegs as [| seg rest (He & Hd & Hdd & _) _ IH]; intros kept; simpl.
  - by rewrite app_nil_r.
  - rewrite !bool_decide_eq_false_2 by done. simpl.
    rewrite IH. simpl. by rewrite <- app_assoc.
Qed.

Lemma resolve_output segs kept out :
  Forall (λ seg, occurs slash seg = false) segs →
  Forall plain_segment kept →
  resolve segs kept = Some out → Forall plain_segment out.
Proof.
  intros Hsegs. revert kept.
  induction Hsegs as [| seg rest Hseg _ IH]; intros kept Hkept; simpl.
  - intros [= <-]. by apply Forall_rev.
  - destruct (bool_decide (seg = "")) eqn:He; simpl; [by apply IH |].
    destruct (bool_decide (seg = ".")) eqn:Hd; simpl; [by apply IH |].
    destruct (bool_decide (seg = "..")) eqn:Hdd.
    + destruct kept as [| k kept']; [done |].
      apply IH. by inversion Hkept.
    + apply IH. constructor; [| done].
      apply bool_decide_eq_false in He, Hd, Hdd. done.
Qed.

Lemma render_not_empty segs : render segs ≠ "".
Proof. by destruct segs. Qed.

(** What [normalize] gives back is the rendering of plain segments ... *)
Lemma normalize_plain (input p : string) :
  normalize input = Ok p → ∃ segs, Forall plain_segment segs ∧ p = render segs.
Proof.
  unfold normalize. case_bool_decide; [done |].
  destruct (resolve _ _) as [segs |] eqn:Hres; [| done].
  intros [= <-]. exists segs. split; [| done].
  eapply resolve_output; [apply split_on_pieces | constructor | exact Hres].
Qed.

(** ... and such a rendering is left as it is. *)
Lemma normalize_render segs :
  Forall plain_segment segs → normalize (render segs) = Ok (render segs).
Proof.
  intros Hsegs. unfold normalize.
  rewrite bool_decide_eq_false_2 by apply render_not_empty.
  rewrite split_on_render by done. simpl.
  destruct segs as [| seg rest]; [done |].
  by rewrite resolve_plain.
Qed.

Lemma normalize_fixed (input p : string) :
  normalize input = Ok p → normalize p = Ok p.
Proof.
  intros (segs & Hsegs & ->)%normalize_plain. by apply normalize_render.
Qed.


End normalizer.

Section spellings.
Implicit Types (s a b : string) (segs kept : list string).

(** A separator closes the last piece before it. *)
Lemma split_on_sep (sep : ascii) a b :
  split_on sep (a +:+ String sep b) = (split_on sep a ++ split_on sep b)%list.
Proof.
  induction a as [| c a IH]; simpl.
  - by rewrite bool_decide_eq_true_2.
  - rewrite IH. case_bool_decide; [done |].
    pose proof (split_on_not_nil sep a).
    by destruct (split_on sep a).
Qed.

Lemma resolve_skip segs1 segs2 kept (seg : string) :
  seg = "" ∨ seg = "." →
  resolve (segs1 ++ seg :: segs2) kept = resolve (segs1 ++ segs2) kept.
Proof.
  intros Hseg. revert kept. induction segs1 as [| x segs1 IH]; intros kept; simpl.
  - by destruct Hseg as [-> | ->].
  - repeat case_match; by rewrite ?IH.
Qed.

Lemma append_not_empty_l a b : a ≠ "" → a +:+ b ≠ "".
Proof. by destruct a. Qed.

Lemma append_not_empty_r a b : b ≠ "" → a +:+ b ≠ "".
Proof. destruct a; [done | by simpl]. Qed.

Lemma normalize_double_separator a b :
  normalize (a +:+ "//" +:+ b) = normalize (a +:+ "/" +:+ b).
Proof.
  unfold normalize.
  rewrite !bool_decide_eq_false_2 by (by apply append_not_empty_r).
  change (a +:+ "//" +:+ b) with (a +:+ String slash ("" +:+ String slash b)).
  change (a +:+ "/" +:+ b) with (a +:+ String slash b).
  rewrite !split_on_sep. change (split_on slash "") with [""].
  cbn [app]. by rewrite (resolve_skip _ _ _ "") by auto.
Qed.

Lemma normalize_dot_segment a b :
  normalize (a +:+ "/./" +:+ b) = normalize (a +:+ "/" +:+ b).
Proof.
  unfold normalize.
  rewrite !bool_decide_eq_false_2 by (by apply append_not_empty_r).
  change (a +:+ "/./" +:+ b) with (a +:+ String slash ("." +:+ String slash b)).
  change (a +:+ "/" +:+ b) with (a +:+ String slash b).
  rewrite !split_on_sep. change (split_on slash ".") with ["."].
  cbn [app]. by rewrite (resolve_skip _ _ _ ".") by auto.
Qed.

Lemma normalize_trailing_separator s :
  s ≠ "" → normalize (s +:+ "/") = normalize s.
Proof.
  intros Hs. unfold normalize.
  rewrite !bool_decide_eq_false_2 by (done || by apply append_not_empty_l).
  change (s +:+ "/") with (s +:+ String slash "").
  rewrite split_on_sep. change (split_on slash "") with [""].
  rewrite (resolve_skip _ [] _ "") by auto. by rewrite app_nil_r.
Qed.

Lemma normalize_leading_separator s :
  s ≠ "" → normalize ("/" +:+ s) = normalize s.
Proof.
  intros Hs. unfold normalize.
  by rewrite !bool_decide_eq_false_2 by done.
Qed.
End spellings.

(** C3: [normalize] is idempotent, a failure staying the failure it is; the
    spellings [/a/b/], [/a//b] and [/a/./b] all come out as [/a/b]
    (likewise [foo//bar] and [/foo/bar/] as [/foo/bar]); and in general a
    doubled separator, a [.] segment, a trailing separator or a leading one
    never changes the key. *)
Theorem normalize_idempotent :
  (∀ x, normalize x ≫= normalize = normalize x) ∧
  normalize "/a/b/" = Ok "/a/b" ∧
  normalize "/a//b" = Ok "/a/b" ∧
  normalize "/a/./b" = Ok "/a/b" ∧
  normalize "foo//bar" = Ok "/foo/bar" ∧
  normalize "/foo/bar/" = Ok "/foo/bar" ∧
  (∀ a b, normalize (a +:+ "//" +:+ b) = normalize (a +:+ "/" +:+ b)) ∧
  (∀ a b, normalize (a +:+ "/./" +:+ b) = normalize (a +:+ "/" +:+ b)) ∧
  (∀ s, s ≠ "" → normalize (s +:+ "/") = normalize s ∧
                 normalize ("/" +:+ s) = normalize s).
Proof.
  split.
  { intros x. destruct (normalize x) as [p | e] eqn:Hx; [| done].
    simpl. by apply normalize_fixed in Hx. }
  repeat (split; [reflexivity |]).
  split; [apply normalize_double_separator |].
  split; [apply normalize_dot_segment |].
  intros s Hs. split.
  - by apply normalize_trailing_separator.
  - by apply normalize_leading_separator.
Qed.

Lemma normalize_idempotent_witness :
  normalize ("foo/bar" +:+ "/") = normalize "foo/bar" ∧
  normalize ("/" +:+ "foo/bar") = normalize "foo/bar".
Proof.
  apply (proj2 (proj2 (proj2 (proj2 (proj2 (proj2 (proj2 (proj2
           normalize_idempotent)))))))).
  discriminate.
Defined.

(** * Properties of the tree operations *)

Section occurrences.
Implicit Types (s search replacement pre post : string).

Lemma prefix_true search s :
  String.prefix search s = true ↔ ∃ post, s = search +:+ post.
Proof.
  revert s. induction search as [| c search IH]; intros s.
  - split; [by exists s | by destruct s].
  - destruct s as [| c' s]; simpl;
      [split; [done | intros [post Hpost]; simpl in Hpost; done] |].
    destruct (ascii_dec c c') as [-> | Hne].
    + rewrite IH. split; intros [post Hpost]; exists post; simpl in *; congruence.
    + split; [done | intros [post Hpost]; simpl in Hpost; congruence].
Qed.

Lemma string_drop_app search post :
  string_drop (String.length search) (search +:+ post) = post.
Proof. induction search as [| c search IH]; simpl; [by destruct post | done]. Qed.

Lemma count_occurrences_cons search c s :
  count_occurrences search (String c s)
  = ((if String.prefix search (String c s) then 1 else 0) + count_occurrences search s)%nat.
Proof. done. Qed.

Lemma replace_first_here search replacement s :
  String.prefix search s = true →
  replace_first search replacement s
  = replacement +:+ string_drop (String.length search) s.
Proof. intros Hp. destruct s; cbn [replace_first]; by rewrite Hp. Qed.

Lemma replace_first_later search replacement c s :
  String.prefix search (String c s) = false →
  replace_first search replacement (String c s)
  = String c (replace_first search replacement s).
Proof. intros Hp. cbn [replace_first]. by rewrite Hp. Qed.

Lemma replace_first_occurrence search replacement s :
  (1 ≤ count_occurrences search s)%nat →
  ∃ pre, occurs_after search s pre ∧
         ∃ post, s = pre +:+ search +:+ post ∧
                 replace_first search replacement s = pre +:+ replacement +:+ post.
Proof.
  induction s as [| c s IH].
  - cbn [count_occurrences]. destruct (String.prefix search "") eqn:Hp; [| lia]. intros _.
    pose proof Hp as [post Hpost]%prefix_true. exists "".
    split; [by exists post |]. exists post. split; [done |].
    rewrite replace_first_here by done.
    destruct search; simpl in Hpost; [| done]. by subst post.
  - rewrite count_occurrences_cons.
    destruct (String.prefix search (String c s)) eqn:Hp.
    + intros _. pose proof Hp as [post Hpost]%prefix_true. exists "".
      split; [by exists post |]. exists post. split; [done |].
      rewrite replace_first_here by done.
      by rewrite Hpost, string_drop_app.
    + intros Hcount. destruct IH as (pre & _ & post & Hs & Hr); [simpl in *; lia |].
      exists (String c pre). split; [exists post; simpl; by rewrite <- Hs |].
      exists post. split; [simpl; by rewrite <- Hs |].
      rewrite replace_first_later by done.
      simpl. by rewrite Hr.
Qed.

Lemma count_occurrence search s pre :
  occurs_after search s pre → (1 ≤ count_occurrences search s)%nat.
Proof.
  revert s. induction pre as [| c pre IH]; intros s [post Hs].
  - assert (String.prefix search s = true) as Hp by (apply prefix_true; eauto).
    destruct s; cbn [count_occurrences]; rewrite Hp; lia.
  - subst s. cbn [String.append]. rewrite count_occurrences_cons.
    assert (1 ≤ count_occurrences search (pre +:+ search +:+ post))%nat
      by (apply IH; by exists post).
    lia.
Qed.

Lemma count_two_occurrences search s pre1 pre2 :
  pre1 ≠ pre2 → occurs_after search s pre1 → occurs_after search s pre2 →
  (2 ≤ count_occurrences search s)%nat.
Proof.
  revert s pre2. induction pre1 as [| c1 pre1 IH]; intros s pre2 Hne H1 H2.
  - destruct pre2 as [| c2 pre2]; [done |].
    assert (String.prefix search s = true) as Hp
      by (destruct H1 as [post1 Hs1]; apply prefix_true; eauto).
    destruct H2 as [post2 Hs2]. simpl in Hs2. subst s.
    assert (1 ≤ count_occurrences search (pre2 +:+ search +:+ post2))%nat as Hc
      by (apply (count_occurrence _ _ pre2); by exists post2).
    rewrite count_occurrences_cons, Hp. lia.
  - destruct pre2 as [| c2 pre2].
    + assert (String.prefix search s = true) as Hp
        by (destruct H2 as [post2 Hs2]; apply prefix_true; eauto).
      destruct H1 as [post1 Hs1]. simpl in Hs1. subst s.
      assert (1 ≤ count_occurrences search (pre1 +:+ search +:+ post1))%nat as Hc
        by (apply (count_occurrence _ _ pre1); by exists post1).
      rewrite count_occurrences_cons, Hp. lia.
    + destruct H1 as [post1 Hs1], H2 as [post2 Hs2]. subst s.
      simpl in Hs2. injection Hs2 as -> Hs2.
      assert (2 ≤ count_occurrences search (pre1 +:+ search +:+ post1))%nat as Hc.
      { apply (IH _ pre2); [congruence | by exists post1 | by exists post2]. }
      cbn [String.append]. rewrite count_occurrences_cons. lia.
Qed.

Lemma two_occurrences_of_count search s :
  (2 ≤ count_occurrences search s)%nat →
  ∃ pre1 pre2, pre1 ≠ pre2 ∧ occurs_after search s pre1 ∧ occurs_after search s pre2.
Proof.
  induction s as [| c s IH].
  - cbn [count_occurrences]. destruct (String.prefix search ""); lia.
  - rewrite count_occurrences_cons. intros Hcount.
    destruct (decide (2 ≤ count_occurrences search s)%nat) as [H2 | H2].
    + destruct (IH H2) as (pre1 & pre2 & Hne & [post1 Hs1] & [post2 Hs2]).
      exists (String c pre1), (String c pre2).
      split; [congruence |].
      split; [exists post1 | exists post2]; simpl; congruence.
    + destruct (String.prefix search (String c s)) eqn:Hp; [| lia].
      apply prefix_true in Hp as [post Hpost].
      destruct (replace_first_occurrence search "" s) as (pre & [post' Hs] & _); [lia |].
      exists "", (String c pre). split; [done |].
      split; [by exists post | exists post'; simpl; congruence].
Qed.
End occurrences.

(** C5: on an existing file, [replaceInFile] fails with
    [AmbiguousMatchError] and leaves the tree as it was when [search]
    occurs at two places or more, fails with [NotFoundInFileError] when it
    occurs nowhere, and rewrites the occurrence when there is exactly
    one. *)
Theorem replaceInFile_unique_occurrence
    (path p search replacement content : string) (t : Tree) :
  normalize path = Ok p →
  t !! p = Some (FileNode content) →
  ((∃ pre1 pre2, pre1 ≠ pre2 ∧ occurs_after search content pre1
                 ∧ occurs_after search content pre2) →
   replaceInFile path search replacement t = (Err AmbiguousMatchError, t) ∧
   viewFile path t = (Ok content, t)) ∧
  ((∀ pre, ¬ occurs_after search content pre) →
   replaceInFile path search replacement t = (Err NotFoundInFileError, t)) ∧
  (∀ pre post,
     content = pre +:+ search +:+ post →
     (∀ pre', occurs_after search content pre' → pre' = pre) →
     replaceInFile path search replacement t
     = (Ok (), <[p := FileNode (pre +:+ replacement +:+ post)]> t)).
Proof.
  intros Hp Ht.
  assert (replaceInFile path search replacement t =
          match count_occurrences search content with
          | 0 => (Err NotFoundInFileError, t)
          | 1 => (Ok (), <[p := FileNode (replace_first search replacement content)]> t)
          | _ => (Err AmbiguousMatchError, t)
          end) as Hrun'.
  { unfold replaceInFile, mbind, VFS_bind, lift, getNode.
    rewrite Hp, Ht. by repeat case_match. }
  split; [| split].
  - intros (pre1 & pre2 & Hne & H1 & H2).
    pose proof (count_two_occurrences _ _ _ _ Hne H1 H2) as Hc.
    split.
    + rewrite Hrun'. by repeat (case_match; try lia).
    + unfold viewFile, mbind, VFS_bind, lift, getNode. by rewrite Hp, Ht.
  - intros Hnone. rewrite Hrun'.
    destruct (count_occurrences search content) as [| n] eqn:Hc; [done |].
    destruct (replace_first_occurrence search "" content) as (pre & Hocc & _); [lia |].
    by destruct (Hnone pre).
  - intros pre post Hcontent Huniq. rewrite Hrun'.
    assert (1 ≤ count_occurrences search content)%nat as H1
      by (apply (count_occurrence _ _ pre); by exists post).
    assert (¬ (2 ≤ count_occurrences search content)%nat) as H2.
    { intros (pre1 & pre2 & Hne & O1 & O2)%two_occurrences_of_count.
      apply Hne. by rewrite (Huniq _ O1), (Huniq _ O2). }
    destruct (count_occurrences search content) as [| [| n]] eqn:Hc; [lia | | lia].
    destruct (replace_first_occurrence search replacement content)
      as (pre' & Hocc & post' & Hs & Hr); [lia |].
    apply Huniq in Hocc as ->. rewrite Hr.
    rewrite Hs in Hcontent. apply (inj (String.app pre)) in Hcontent.
    apply (inj (String.app search)) in Hcontent. by subst.
Qed.

Lemma replaceInFile_unique_occurrence_witness :
  replaceInFile "/a.js" "foo" "baz" twice_tree = (Err AmbiguousMatchError, twice_tree) ∧
  viewFile "/a.js" twice_tree = (Ok "foo bar foo", twice_tree).
Proof.
  apply (proj1 (replaceInFile_unique_occurrence
                  "/a.js" "/a.js" "foo" "baz" "foo bar foo" twice_tree
                  eq_refl eq_refl)).
  exists "", "foo bar ". split; [discriminate |].
  split; [by exists " bar foo" | by exists ""].
Defined.

Section atomicity.
Implicit Types (t : Tree) (p path : string).

Lemma ensureDirectoryNode_run p t :
  ensureDirectoryNode p t
  = (Ok (), if t !! p is None then <[p := DirectoryNode]> t else t).
Proof. unfold ensureDirectoryNode. vfs_unfold. by destruct (t !! p). Qed.

(** Materializing directories cannot fail; it only adds directories, and
    stays inside any tree that has them all. *)
Lemma forEach_ensure_run (l : list string) t :
  ∃ t', forEach ensureDirectoryNode l t = (Ok (), t') ∧ t ⊆ t' ∧
        ∀ T : Tree, t ⊆ T → (∀ a, a ∈ l → T !! a = Some DirectoryNode) → t' ⊆ T.
Proof.
  revert t. induction l as [| a l IH]; intros t.
  - exists t. by split.
  - cbn [forEach]. unfold mbind at 1, VFS_bind at 1.
    rewrite ensureDirectoryNode_run.
    destruct (IH (if t !! a is None then <[a := DirectoryNode]> t else t))
      as (t' & Hrun & Hsub & Hin).
    exists t'. split; [done |]. split.
    + etrans; [| exact Hsub]. destruct (t !! a) eqn:Ha; [done |].
      by apply insert_subseteq.
    + intros T HT Hdirs. apply Hin.
      * destruct (t !! a) eqn:Ha; [done |].
        apply insert_subseteq_l; [| done]. apply Hdirs. left.
      * intros b Hb. apply Hdirs. by right.
Qed.

Lemma materializeAncestors_run p t :
  ∃ t', materializeAncestors p t = (Ok (), t') ∧ t ⊆ t' ∧
        ∀ T : Tree, t ⊆ T → (∀ a, a ∈ ancestors p → T !! a = Some DirectoryNode) → t' ⊆ T.
Proof. apply forEach_ensure_run. Qed.

Lemma perform_atomic (m : Mutation) t e t' :
  perform m t = (Err e, t') → t' = t.
Proof.
  destruct m; cbn [perform];
    unfold createFile, createDirectory, updateFile, deleteFile, deleteDirectory,
      rename, replaceInFile, insertInFile; vfs_unfold;
    repeat match goal with
           | |- context [materializeAncestors ?p ?t] =>
               let H := fresh in
               destruct (materializeAncestors_run p t) as (? & H & _); rewrite H
           | |- context [normalize ?p] => destruct (normalize p)
           | _ => case_match
           end; by intros [= <-].
Qed.
End atomicity.

(** C6: every mutating operation of the tree either succeeds or leaves the
    tree exactly as it found it; in particular deleting a path that names
    no node fails with [NotFoundError] on an unchanged tree. *)
Theorem mutations_atomic :
  (∀ (m : Mutation) (t t' : Tree) (e : TreeError),
     perform m t = (Err e, t') → t' = t) ∧
  (∀ (path p : string) (t : Tree),
     normalize path = Ok p → t !! p = None →
     deleteFile path t = (Err NotFoundError, t) ∧
     deleteDirectory path t = (Err NotFoundError, t)).
Proof.
  split.
  - intros m t t' e. apply perform_atomic.
  - intros path p t Hp Hnone.
    unfold deleteFile, deleteDirectory. vfs_unfold. by rewrite Hp, Hnone.
Qed.

Lemma mutations_atomic_witness :
  deleteFile "/missing.js" empty_tree = (Err NotFoundError, empty_tree) ∧
  deleteDirectory "/missing.js" empty_tree = (Err NotFoundError, empty_tree).
Proof.
  apply (proj2 mutations_atomic "/missing.js" "/missing.js" empty_tree).
  - reflexivity.
  - reflexivity.
Defined.

Section tools.
Implicit Types (t : Tree) (toolName : string) (args : JsValue).






End tools.

Section containment.
Implicit Types (t : Tree) (toolName : string) (args : JsValue).





End containment.




Section renaming.
Implicit Types (t : Tree) (p q k : string).

Lemma rename_run (oldPath newPath p q : string) t (n : Node) :
  normalize oldPath = Ok p → normalize newPath = Ok q →
  t !! p = Some n → t !! q = None →
  rename oldPath newPath t = (Ok (), move p q t).
Proof.
  intros Hp Hq Hn Hfree. unfold rename. vfs_unfold.
  by rewrite Hp, Hq, Hn, Hfree.
Qed.

(** A key of the moved subtree is free afterwards unless some moved node
    lands on it. *)
Lemma move_lookup_None p q t k :
  in_subtree p k = true → (∀ k', rekey p q k' ≠ k) → move p q t !! k = None.
Proof.
  intros Hin Hfresh. unfold move. apply lookup_union_None. split.
  - apply not_elem_of_list_to_map_1. rewrite <- list_fmap_compose.
    intros ([k' v] & Hk & _)%list_elem_of_fmap. simpl in Hk.
    by destruct (Hfresh k').
  - apply map_lookup_filter_None. right. intros n _. simpl. by rewrite Hin.
Qed.
End renaming.


(** C1: on a tree that has [/old.js] (and nothing yet at [/new.js]), the
    [file_manager] call with [{command: "rename", path: "/old.js",
    new_path: "/new.js"}] is summarized as "Renaming /old.js → /new.js",
    succeeds with exactly that message, and a view of [/old.js] afterwards
    fails with [NotFoundError], through the tree as through the editor
    tool. *)
Theorem rename_scenario (t : Tree) (n : Node) :
  t !! "/old.js" = Some n →
  t !! "/new.js" = None →
  formatToolMessage "file_manager" rename_args = Normal "Renaming /old.js → /new.js" ∧
  ∃ t', run_tool "file_manager" rename_args t
        = ({| success := true; message := "Renaming /old.js → /new.js" |}, t') ∧
        viewFile "/old.js" t' = (Err NotFoundError, t') ∧
        run_tool "str_replace_editor" (view_args "/old.js") t'
        = ({| success := false; message := error_message (TreeFault NotFoundError) |}, t').
Proof.
  intros Hold Hnew. split; [reflexivity |].
  exists (move "/old.js" "/new.js" t).
  assert (move "/old.js" "/new.js" t !! "/old.js" = None) as Hgone.
  { apply move_lookup_None; [reflexivity |].
    intros k. unfold rekey. case_bool_decide; [done |].
    change (dir_prefix "/new.js") with "/new.js/". by simpl. }
  assert (viewFile "/old.js" (move "/old.js" "/new.js" t)
          = (Err NotFoundError, move "/old.js" "/new.js" t)) as Hview.
  { unfold viewFile. vfs_unfold.
    change (normalize "/old.js") with (Ok "/old.js"). cbv beta iota.
    by rewrite Hgone. }
  split; [| split; [exact Hview |]].
  - unfold run_tool.
    change (validate "file_manager" rename_args)
      with (Ok (FileManagerCall (FileManager.Rename "/old.js" "/new.js"))).
    change (formatToolMessage "file_manager" rename_args)
      with (Normal "Renaming /old.js → /new.js").
    cbn [execute]. unfold mbind at 1, VFS_bind at 1.
    by rewrite (rename_run "/old.js" "/new.js" "/old.js" "/new.js" t n).
  - unfold run_tool.
    change (validate "str_replace_editor" (view_args "/old.js"))
      with (Ok (EditorCall (Editor.View "/old.js"))).
    change (formatToolMessage "str_replace_editor" (view_args "/old.js"))
      with (Normal "Viewing /old.js").
    cbn [execute]. unfold mbind at 1, VFS_bind at 1. by rewrite Hview.
Qed.

Lemma rename_scenario_witness :
  formatToolMessage "file_manager" rename_args = Normal "Renaming /old.js → /new.js" ∧
  ∃ t', run_tool "file_manager" rename_args scenario_tree
        = ({| success := true; message := "Renaming /old.js → /new.js" |}, t') ∧
        viewFile "/old.js" t' = (Err NotFoundError, t') ∧
        run_tool "str_replace_editor" (view_args "/old.js") t'
        = ({| success := false; message := error_message (TreeFault NotFoundError) |}, t').
Proof.
  apply (rename_scenario scenario_tree (FileNode "export default 1")).
  - reflexivity.
  - reflexivity.
Defined.

(** * Round trip through the serializer *)

Section roundtrip.
Implicit Types (t T acc : Tree) (p : string) (segs : list string).




End roundtrip.

Section restore.
Implicit Types (t T acc : Tree) (p : string).




End restore.

Section rebuild.
Implicit Types (T : Tree).

End rebuild.




(** * Worked examples *)

(** The cases of the component's test suite. *)

Example test_create_command :
  ToolInvocationBadge
    {| toolName := "str_replace_editor";
       args := JsObject [("command", JsString "create"); ("path", JsString "/App.jsx")];
       state := Some "result" |}
  = Normal {| indicator := CompletedDot; text := "Creating /App.jsx" |}.
Proof. reflexivity. Qed.

Example test_rename_command :
  ToolInvocationBadge
    {| toolName := "file_manager"; args := rename_args; state := Some "result" |}
  = Normal {| indicator := CompletedDot; text := "Renaming /old.js → /new.js" |}.
Proof. reflexivity. Qed.

Example test_delete_command :
  ToolInvocationBadge
    {| toolName := "file_manager";
       args := JsObject [("command", JsString "delete"); ("path", JsString "/test.js")];
       state := Some "result" |}
  = Normal {| indicator := CompletedDot; text := "Deleting /test.js" |}.
Proof. reflexivity. Qed.

Example test_loading_state :
  ToolInvocationBadge
    {| toolName := "str_replace_editor";
       args := JsObject [("command", JsString "create"); ("path", JsString "/App.jsx")];
       state := Some "loading" |}
  = Normal {| indicator := Spinner; text := "Creating /App.jsx" |}.
Proof. reflexivity. Qed.

Example test_missing_args :
  ToolInvocationBadge
    {| toolName := "str_replace_editor"; args := JsUndefined; state := Some "result" |}
  = Normal {| indicator := CompletedDot; text := "str_replace_editor" |}.
Proof. reflexivity. Qed.

Example test_unknown_tool :
  ToolInvocationBadge
    {| toolName := "unknown_tool"; args := JsObject [("some", JsString "data")];
       state := Some "result" |}
  = Normal {| indicator := CompletedDot; text := "unknown_tool" |}.
Proof. reflexivity. Qed.

Example test_unknown_command :
  ToolInvocationBadge
    {| toolName := "str_replace_editor";
       args := JsObject [("command", JsString "unknown"); ("path", JsString "/test.js")];
       state := Some "result" |}
  = Normal {| indicator := CompletedDot; text := "str_replace_editor" |}.
Proof. reflexivity. Qed.

Example state_absent_spins :
  ToolInvocationBadge
    {| toolName := "file_manager"; args := rename_args; state := None |}
  = Normal {| indicator := Spinner; text := "Renaming /old.js → /new.js" |}.
Proof. reflexivity. Qed.

Example normalize_rejects_empty : normalize "" = Err InvalidPathError.
Proof. reflexivity. Qed.

Example normalize_rejects_escape : normalize "/a/../.." = Err InvalidPathError.
Proof. reflexivity. Qed.

Example normalize_resolves_dotdot : normalize "a/../b/" = Ok "/b".
Proof. reflexivity. Qed.

Example normalize_root : normalize "//" = Ok "/".
Proof. reflexivity. Qed.

Example ancestors_of_card :
  ancestors "/components/ui/Card.jsx" = ["/"; "/components"; "/components/ui"].
Proof. reflexivity. Qed.

Example create_then_view :
  ∃ t', run_tool "str_replace_editor"
          (JsObject [("command", JsString "create"); ("path", JsString "/App.jsx");
                     ("file_text", JsString "export default function App(){return null}")])
          empty_tree
        = ({| success := true; message := "Creating /App.jsx" |}, t') ∧
        viewFile "/App.jsx" t'
        = (Ok "export default function App(){return null}", t').
Proof. eexists. split; reflexivity. Qed.

Example create_materializes_ancestors :
  (createFile "components//ui/Card.jsx" "x" empty_tree).2
  = <["/components/ui/Card.jsx" := FileNode "x"]>
      (<["/components/ui" := DirectoryNode]>
         (<["/components" := DirectoryNode]> empty_tree)).
Proof. reflexivity. Qed.

Example replace_unique :
  replaceInFile "/a.js" "bar" "baz" twice_tree
  = (Ok (), <["/a.js" := FileNode "foo baz foo"]> twice_tree).
Proof. reflexivity. Qed.

Example replace_missing :
  replaceInFile "/a.js" "qux" "baz" twice_tree = (Err NotFoundInFileError, twice_tree).
Proof. reflexivity. Qed.

Example insert_after_first_line :
  insertInFile "/a.js" 1 "second" twice_tree
  = (Ok (), <["/a.js" := FileNode ("foo bar foo" +:+ String newline "second")]> twice_tree).
Proof. by vm_compute. Qed.

Example insert_out_of_range :
  insertInFile "/a.js" 2 "x" twice_tree = (Err OutOfRangeError, twice_tree).
Proof. reflexivity. Qed.

Example rename_directory :
  ∃ t', rename "/components" "/widgets" project_tree = (Ok (), t') ∧
        t' !! "/widgets/Card.jsx" = Some (FileNode "export const Card = () => null") ∧
        t' !! "/widgets" = Some DirectoryNode ∧
        t' !! "/components" = None ∧
        t' !! "/components/Card.jsx" = None ∧
        t' !! "/App.jsx" = project_tree !! "/App.jsx".
Proof. eexists. split; [reflexivity |]. by vm_compute. Qed.

Example delete_directory_recursive :
  (deleteDirectory "/components" project_tree).2
  = <["/App.jsx" := FileNode "export default function App(){return null}"]> empty_tree.
Proof. by vm_compute. Qed.

Example deserialize_empty : deserialize ∅ = Ok empty_tree.
Proof. reflexivity. Qed.

Example children_of_root :
  children project_tree "/" = {[ "/App.jsx"; "/components" ]}.
Proof. by vm_compute. Qed.

Example insert_line_must_be_a_count :
  validate "str_replace_editor"
    (JsObject [("command", JsString "insert"); ("path", JsString "/a.js");
               ("insert_line", JsNumber "1.5"); ("new_str", JsString "x")])
  = Err InvalidArgumentsError.
Proof. reflexivity. Qed.

Example insert_line_parsed :
  validate "str_replace_editor"
    (JsObject [("command", JsString "insert"); ("path", JsString "/a.js");
               ("insert_line", JsNumber "12"); ("new_str", JsString "x")])
  = Ok (EditorCall (Editor.Insert "/a.js" 12 "x")).
Proof. reflexivity. Qed.

Example missing_field_rejected :
  run_tool "file_manager" (JsObject [("command", JsString "rename"); ("path", JsString "/a.js")])
    twice_tree
  = ({| success := false; message := "Invalid arguments" |}, twice_tree).
Proof. reflexivity. Qed.

(** A path that shadows [toString] cannot be printed: the template literal
    throws. *)
Example formatToolMessage_can_throw :
  formatToolMessage "str_replace_editor"
    (JsObject [("command", JsString "create");
               ("path", JsObject [("toString", JsNumber "1")])])
  = Throw TypeError.
Proof. reflexivity. Qed.

Example formatToolMessage_prints_any_path :
  formatToolMessage "file_manager"
    (JsObject [("command", JsString "delete");
               ("path", JsArray [JsNumber "1"; JsNull; JsString "a"; JsArray [JsBool true; JsObject []]])])
  = Normal "Deleting 1,,a,true,[object Object]".
Proof. reflexivity. Qed.

Example formatToolMessage_missing_path :
  formatToolMessage "str_replace_editor" (JsObject [("command", JsString "view")])
  = Normal "Viewing undefined".
Proof. reflexivity. Qed.

(** * More on the messages of the badge *)

Section printing.
Implicit Types (v : JsValue) (toolName : string) (args : JsValue).

Lemma ToString_array (elems : list JsValue) :
  ToString (JsArray elems) = join_elements true elems.
Proof. reflexivity. Qed.

Lemma printable_array (elems : list JsValue) :
  printable (JsArray elems) = forallb printable elems.
Proof. reflexivity. Qed.

Lemma element_text (x : JsValue) (r : Completion string) :
  ToString x = r →
  match x with
  | JsUndefined | JsNull => Normal ""
  | _ => ToString x
  end = match r with
        | Normal s => Normal (match x with JsUndefined | JsNull => "" | _ => s end)
        | Throw e => Throw e
        end.
Proof. intros <-. destruct x; try done; by destruct (ToString _). Qed.

(** [ToString] returns on a printable value and throws on any other. *)
Lemma ToString_printable v :
  if printable v then ∃ s, ToString v = Normal s else ToString v = Throw TypeError.
Proof.
  revert v. fix IH 1. intros v.
  destruct v as [| | b | repr | s | elems | props];
    try (clear IH; simpl; by eauto).
  - rewrite ToString_array, printable_array. generalize true as first.
    induction elems as [| x elems IHelems]; intros first; [simpl; by eauto |].
    specialize (IH x). specialize (IHelems false). clear -IH IHelems.
    cbn [forallb join_elements].
    destruct (printable x).
    + destruct IH as [sx Hsx]. rewrite (element_text x _ Hsx).
      destruct (forallb printable elems); cbn [andb].
      * destruct IHelems as [rest ->]. eauto.
      * by rewrite IHelems.
    + by rewrite (element_text x _ IH).
  - clear IH. simpl. destruct (own_property props "toString"); eauto.
Qed.

Lemma ToString_Normal v : printable v = true → ∃ s, ToString v = Normal s.
Proof. intros H. pose proof (ToString_printable v) as P. by rewrite H in P. Qed.

Lemma ToString_Throw v : printable v = false → ToString v = Throw TypeError.
Proof. intros H. pose proof (ToString_printable v) as P. by rewrite H in P. Qed.

Lemma Get_string_truthy args (k s : string) :
  Get args k = JsString s → ToBoolean args = true.
Proof. by destruct args. Qed.
End printing.

Section messages.
Implicit Types (toolName verb m : string) (args : JsValue).

Lemma prints_path_truthy toolName args :
  prints_path toolName (Get args "command") = true → ToBoolean args = true.
Proof.
  unfold prints_path. destruct (Get args "command") as [| | | | c | |] eqn:Hc;
    simpl; rewrite ?andb_false_r; try done.
  intros _. by apply (Get_string_truthy _ _ _ Hc).
Qed.

Lemma prints_path_tool toolName (command : JsValue) :
  prints_path toolName command = true →
  toolName = "str_replace_editor" ∨ toolName = "file_manager".
Proof.
  unfold prints_path. do 2 case_bool_decide; simpl; auto. done.
Qed.

Lemma prints_new_path_prints_path toolName (command : JsValue) :
  prints_new_path toolName command = true → prints_path toolName command = true.
Proof.
  unfold prints_new_path, prints_path.
  intros [-> ->]%andb_true_iff. simpl. by rewrite orb_true_r.
Qed.

(** Without a command that prints, the tool name comes back. *)
Lemma formatToolMessage_no_print toolName args :
  prints_path toolName (Get args "command") = false →
  formatToolMessage toolName args = Normal toolName.
Proof.
  unfold prints_path, formatToolMessage. intros H.
  destruct (ToBoolean args); [simpl | done].
  destruct (bool_decide (toolName = "str_replace_editor")); simpl in *.
  - apply orb_false_iff in H as [H _].
    repeat (apply orb_false_iff in H as [H ?]).
    by repeat match goal with E : strict_equals_string _ _ = false |- _ => rewrite E; clear E end.
  - destruct (bool_decide (toolName = "file_manager")); simpl in *; [| done].
    apply orb_false_iff in H as [H1 H2]. by rewrite H1, H2.
Qed.

(** With one, the message is a verb followed by the path as a string, and
    by the new path where the call prints it. *)
Lemma formatToolMessage_prints toolName args :
  prints_path toolName (Get args "command") = true →
  ∃ verb, verb ∈ ["Creating "; "Editing "; "Viewing "; "Renaming "; "Deleting "] ∧
    formatToolMessage toolName args
    = p ← ToString (Get args "path");
      if prints_new_path toolName (Get args "command")
      then q ← ToString (Get args "new_path");
           Normal (verb +:+ p +:+ " → " +:+ q)
      else Normal (verb +:+ p).
Proof.
  intros H. pose proof (prints_path_truthy _ _ H) as Htrue.
  unfold formatToolMessage. rewrite Htrue. cbn [negb].
  unfold prints_path, prints_new_path in *.
  destruct (bool_decide (toolName = "str_replace_editor")) eqn:He.
  - apply bool_decide_eq_true in He as ->. simpl in *.
    destruct (strict_equals_string _ "create");
      [exists "Creating "; split; [set_solver | done] |].
    destruct (strict_equals_string _ "str_replace");
      [exists "Editing "; split; [set_solver | done] |].
    destruct (strict_equals_string _ "insert");
      [exists "Editing "; split; [set_solver | done] |].
    destruct (strict_equals_string _ "view");
      [exists "Viewing "; split; [set_solver | done] |].
    done.
  - destruct (bool_decide (toolName = "file_manager")) eqn:Hf; [| done].
    simpl in *.
    destruct (strict_equals_string _ "rename").
    { exists "Renaming ". split; [set_solver |].
      done. }
    destruct (strict_equals_string _ "delete");
      [exists "Deleting "; split; [set_solver | done] |].
    done.
Qed.

Lemma formatToolMessage_throws toolName args (e : JsError) :
  formatToolMessage toolName args = Throw e ↔
  prints_path toolName (Get args "command") = true
  ∧ printable (Get args "path") = false
  ∨ prints_new_path toolName (Get args "command") = true
    ∧ printable (Get args "new_path") = false.
Proof.
  destruct e.
  destruct (prints_path toolName (Get args "command")) eqn:Hp.
  - destruct (formatToolMessage_prints _ _ Hp) as (verb & _ & ->).
    pose proof (ToString_printable (Get args "path")) as P.
    pose proof (ToString_printable (Get args "new_path")) as Q.
    destruct (printable (Get args "path")).
    + destruct P as [p ->]. simpl.
      destruct (prints_new_path toolName (Get args "command")).
      * destruct (printable (Get args "new_path")).
        -- destruct Q as [q ->]. simpl. split; [done | by intros [[_ ?] | [_ ?]]].
        -- rewrite Q. simpl. split; [by right | done].
      * split; [done | by intros [[_ ?] | [? _]]].
    + rewrite P. simpl. split; [by left | done].
  - rewrite (formatToolMessage_no_print _ _ Hp).
    split; [done |]. intros [[? _] | [Hn _]]; [done |].
    apply prints_new_path_prints_path in Hn. congruence.
Qed.

(** A message that starts with one of the verbs is not a tool name, and is
    not empty. *)
Lemma verb_message_not_tool_name toolName verb (rest : string) :
  verb ∈ ["Creating "; "Editing "; "Viewing "; "Renaming "; "Deleting "] →
  toolName = "str_replace_editor" ∨ toolName = "file_manager" →
  verb +:+ rest ≠ toolName.
Proof.
  intros Hverb Htool.
  repeat (apply elem_of_cons in Hverb as [-> | Hverb]);
    [.. | by apply elem_of_nil in Hverb];
    destruct Htool as [-> | ->]; by simpl.
Qed.

Lemma verb_message_not_empty verb (rest : string) :
  verb ∈ ["Creating "; "Editing "; "Viewing "; "Renaming "; "Deleting "] →
  verb +:+ rest ≠ "".
Proof.
  intros Hverb.
  repeat (apply elem_of_cons in Hverb as [-> | Hverb]);
    [.. | by apply elem_of_nil in Hverb]; by simpl.
Qed.

Lemma formatToolMessage_verb_message toolName args m :
  prints_path toolName (Get args "command") = true →
  formatToolMessage toolName args = Normal m →
  ∃ verb rest, verb ∈ ["Creating "; "Editing "; "Viewing "; "Renaming "; "Deleting "]
               ∧ m = verb +:+ rest.
Proof.
  intros Hp. destruct (formatToolMessage_prints _ _ Hp) as (verb & Hverb & ->).
  destruct (ToString (Get args "path")) as [p |]; [simpl | done].
  destruct (prints_new_path _ _).
  - destruct (ToString (Get args "new_path")) as [q |]; [simpl | done].
    intros [= <-]. eauto.
  - intros [= <-]. eauto.
Qed.
End messages.

(** X1: for all paths [p] and [q], the file-manager commands read
    "Renaming p → q" and "Deleting p", whatever other fields [args] has. *)
Theorem formatToolMessage_file_manager_commands
    (p q : string) (others : list (string * JsValue)) :
  formatToolMessage "file_manager"
    (JsObject (("command", JsString "rename") :: ("path", JsString p)
               :: ("new_path", JsString q) :: others))
  = Normal ("Renaming " +:+ p +:+ " → " +:+ q) ∧
  formatToolMessage "file_manager"
    (JsObject (("command", JsString "delete") :: ("path", JsString p) :: others))
  = Normal ("Deleting " +:+ p).
Proof. by split. Qed.

(** X2: [formatToolMessage] throws exactly when the command is one that
    prints [path] and [path] cannot be converted to a string, or the command
    is [rename] of the file manager and [new_path] cannot be. *)
Theorem formatToolMessage_throws_iff (toolName : string) (args : JsValue) (e : JsError) :
  formatToolMessage toolName args = Throw e ↔
  prints_path toolName (Get args "command") = true
  ∧ printable (Get args "path") = false
  ∨ prints_new_path toolName (Get args "command") = true
    ∧ printable (Get args "new_path") = false.
Proof. apply formatToolMessage_throws. Qed.

Lemma formatToolMessage_throws_iff_witness :
  formatToolMessage "file_manager"
    (JsObject [("command", JsString "rename"); ("path", JsString "/a.js");
               ("new_path", JsObject [("toString", JsString "/b.js")])])
  = Throw TypeError.
Proof. apply formatToolMessage_throws_iff. right. split; reflexivity. Defined.

(** X3: the raw tool name is what comes back exactly in the fallback cases:
    a call of a known tool with one of its commands never displays as the
    bare tool name. *)
Theorem tool_name_shown_iff_fallback (toolName : string) (args : JsValue) :
  formatToolMessage toolName args = Normal toolName ↔
  prints_path toolName (Get args "command") = false.
Proof.
  split; [| apply formatToolMessage_no_print].
  intros Hm. apply not_true_is_false. intros Hp.
  destruct (formatToolMessage_verb_message _ _ _ Hp Hm) as (verb & rest & Hverb & Heq).
  symmetry in Heq. revert Heq.
  apply verb_message_not_tool_name; [done |]. by eapply prints_path_tool.
Qed.

Lemma tool_name_shown_iff_fallback_witness :
  formatToolMessage "file_manager" (JsObject [("command", JsString "create")])
  = Normal "file_manager".
Proof. apply tool_name_shown_iff_fallback. reflexivity. Defined.

(** X4: for a tool with a name, the summary is never the empty string. *)
Theorem summary_not_empty (toolName : string) (args : JsValue) (m : string) :
  toolName ≠ "" →
  formatToolMessage toolName args = Normal m →
  m ≠ "".
Proof.
  intros Hname Hm.
  destruct (prints_path toolName (Get args "command")) eqn:Hp.
  - destruct (formatToolMessage_verb_message _ _ _ Hp Hm) as (verb & rest & Hverb & ->).
    by apply verb_message_not_empty.
  - rewrite (formatToolMessage_no_print _ _ Hp) in Hm. congruence.
Qed.

Lemma summary_not_empty_witness :
  "Viewing /test.js" ≠ "".
Proof.
  apply (summary_not_empty "str_replace_editor" (view_args "/test.js")).
  - discriminate.
  - reflexivity.
Defined.

(** X5: among editor calls with string paths, two display alike exactly
    when they name the same path and either the same command or the two
    editing commands [str_replace] and [insert]: the message determines the
    path, and the command up to that one merge. *)
Theorem editor_message_determines_path
    (args1 args2 : JsValue) (c1 c2 p1 p2 : string) :
  Get args1 "command" = JsString c1 → Get args1 "path" = JsString p1 →
  Get args2 "command" = JsString c2 → Get args2 "path" = JsString p2 →
  c1 ∈ ["create"; "str_replace"; "insert"; "view"] →
  c2 ∈ ["create"; "str_replace"; "insert"; "view"] →
  formatToolMessage "str_replace_editor" args1
  = formatToolMessage "str_replace_editor" args2 ↔
  p1 = p2 ∧ (c1 = c2 ∨ ((c1 = "str_replace" ∨ c1 = "insert")
                        ∧ (c2 = "str_replace" ∨ c2 = "insert"))).
Proof.
  intros Hc1 Hp1 Hc2 Hp2 Hin1 Hin2.
  pose proof (Get_string_truthy _ _ _ Hc1) as T1.
  pose proof (Get_string_truthy _ _ _ Hc2) as T2.
  unfold formatToolMessage. rewrite T1, T2, Hc1, Hp1, Hc2, Hp2. cbn [negb].
  repeat (apply elem_of_cons in Hin1 as [-> | Hin1]);
    [.. | by apply elem_of_nil in Hin1];
    (repeat (apply elem_of_cons in Hin2 as [-> | Hin2]);
     [.. | by apply elem_of_nil in Hin2]);
    simpl; (split; [intros [= ->]; auto | intros [-> Hc]]);
    first [ reflexivity
          | exfalso; destruct Hc as [Hc | [[Ha | Ha] [Hb | Hb]]]; discriminate ].
Qed.

Lemma editor_message_determines_path_witness :
  formatToolMessage "str_replace_editor"
    (JsObject [("command", JsString "str_replace"); ("path", JsString "/a.js")])
  = formatToolMessage "str_replace_editor"
      (JsObject [("path", JsString "/a.js"); ("command", JsString "insert")]) ↔
  "/a.js" = "/a.js"
  ∧ ("str_replace" = "insert"
     ∨ (("str_replace" = "str_replace" ∨ "str_replace" = "insert")
        ∧ ("insert" = "str_replace" ∨ "insert" = "insert"))).
Proof.
  apply editor_message_determines_path;
    first [reflexivity | repeat constructor].
Defined.

Section arrow.
Implicit Types (a b c : string).

Lemma append_longer a b : b ≠ "" → a +:+ b ≠ a.
Proof.
  intros Hb. induction a as [| x a IH]; simpl; [done |].
  intros [= H]. by apply IH.
Qed.
End arrow.

(** X6: the rename message does not determine its two paths: moving the
    text " → " with what follows it from the end of [path] to the front of
    [new_path] gives a different call with the same message. *)
Theorem rename_message_ambiguous (a b c : string) :
  a +:+ " → " +:+ b ≠ a ∧
  formatToolMessage "file_manager"
    (JsObject [("command", JsString "rename");
               ("path", JsString (a +:+ " → " +:+ b)); ("new_path", JsString c)])
  = formatToolMessage "file_manager"
      (JsObject [("command", JsString "rename");
                 ("path", JsString a); ("new_path", JsString (b +:+ " → " +:+ c))]).
Proof.
  split; [by apply append_longer |].
  unfold formatToolMessage. simpl. f_equal. f_equal.
  change (" → " +:+ b +:+ " → " +:+ c) with ((" → " +:+ b) +:+ " → " +:+ c).
  by rewrite !append_assoc.
Qed.

(** X7: a known command whose [args] has no [path] does not fall back to
    the tool name; the missing field is printed as the word "undefined"
    (and so is a missing [new_path] of a rename). *)
Theorem missing_path_prints_undefined (args : JsValue) :
  Get args "path" = JsUndefined →
  (Get args "command" = JsString "create" →
   formatToolMessage "str_replace_editor" args = Normal "Creating undefined") ∧
  (Get args "command" = JsString "str_replace" ∨ Get args "command" = JsString "insert" →
   formatToolMessage "str_replace_editor" args = Normal "Editing undefined") ∧
  (Get args "command" = JsString "view" →
   formatToolMessage "str_replace_editor" args = Normal "Viewing undefined") ∧
  (Get args "command" = JsString "delete" →
   formatToolMessage "file_manager" args = Normal "Deleting undefined") ∧
  (Get args "command" = JsString "rename" → Get args "new_path" = JsUndefined →
   formatToolMessage "file_manager" args = Normal "Renaming undefined → undefined").
Proof.
  intros Hp. unfold formatToolMessage. rewrite Hp.
  repeat split.
  - intros Hc. by rewrite (Get_string_truthy _ _ _ Hc), Hc.
  - intros [Hc | Hc]; by rewrite (Get_string_truthy _ _ _ Hc), Hc.
  - intros Hc. by rewrite (Get_string_truthy _ _ _ Hc), Hc.
  - intros Hc. by rewrite (Get_string_truthy _ _ _ Hc), Hc.
  - intros Hc Hq. by rewrite (Get_string_truthy _ _ _ Hc), Hc, Hq.
Qed.

Lemma missing_path_prints_undefined_witness :
  formatToolMessage "str_replace_editor" (JsObject [("command", JsString "create")])
  = Normal "Creating undefined".
Proof.
  apply (missing_path_prints_undefined (JsObject [("command", JsString "create")]));
    reflexivity.
Defined.

(** X8: [new_path] is read by the rename of the file manager only: for
    every other tool and command, two [args] that agree on [command] and
    [path] display alike. *)
Theorem new_path_read_only_by_rename (toolName : string) (args1 args2 : JsValue) :
  Get args1 "command" = Get args2 "command" →
  Get args1 "path" = Get args2 "path" →
  prints_new_path toolName (Get args1 "command") = false →
  formatToolMessage toolName args1 = formatToolMessage toolName args2.
Proof.
  intros Hc Hp Hn.
  destruct (prints_path toolName (Get args1 "command")) eqn:Hpr.
  - pose proof (prints_path_truthy _ _ Hpr) as T1.
    rewrite Hc in Hpr. pose proof (prints_path_truthy _ _ Hpr) as T2.
    unfold formatToolMessage. rewrite T1, T2, <- Hc, <- Hp.
    unfold prints_new_path in Hn.
    destruct (bool_decide (toolName = "str_replace_editor")); [done |].
    destruct (bool_decide (toolName = "file_manager")); [| done].
    simpl in Hn. by rewrite Hn.
  - rewrite (formatToolMessage_no_print _ _ Hpr).
    rewrite Hc in Hpr. by rewrite (formatToolMessage_no_print _ _ Hpr).
Qed.

Lemma new_path_read_only_by_rename_witness :
  formatToolMessage "file_manager"
    (JsObject [("command", JsString "delete"); ("path", JsString "/a.js");
               ("new_path", JsString "/b.js")])
  = formatToolMessage "file_manager"
      (JsObject [("command", JsString "delete"); ("path", JsString "/a.js")]).
Proof. apply new_path_read_only_by_rename; reflexivity. Defined.

(** X9: only an object can carry a command: for an [args] that is a
    string, number, boolean, array, [null] or absent, the summary is the
    tool name. *)
Theorem formatToolMessage_needs_object (toolName : string) (args : JsValue) :
  (∀ props, args ≠ JsObject props) →
  formatToolMessage toolName args = Normal toolName.
Proof.
  intros Hargs. apply formatToolMessage_no_print.
  assert (Get args "command" = JsUndefined) as ->.
  { destruct args; try done. by destruct (Hargs props). }
  unfold prints_path. simpl. by rewrite !andb_false_r.
Qed.

Lemma formatToolMessage_needs_object_witness :
  formatToolMessage "str_replace_editor" (JsArray [JsString "create"; JsString "/App.jsx"])
  = Normal "str_replace_editor".
Proof. apply formatToolMessage_needs_object. discriminate. Defined.

(** X10: the component throws while rendering in just the cases in which
    [formatToolMessage] does, a known command with a [path] (or, for a
    rename, a [new_path]) that cannot be converted to a string; [state]
    plays no part in it. *)
Theorem badge_throws_iff
    (toolName : string) (args : JsValue) (state : option string) (e : JsError) :
  ToolInvocationBadge {| toolName := toolName; args := args; state := state |} = Throw e ↔
  prints_path toolName (Get args "command") = true
  ∧ printable (Get args "path") = false
  ∨ prints_new_path toolName (Get args "command") = true
    ∧ printable (Get args "new_path") = false.
Proof.
  rewrite <- (formatToolMessage_throws toolName args e).
  unfold ToolInvocationBadge. simpl.
  destruct (formatToolMessage toolName args); simpl; [split; done |].
  split; intros [= ->]; done.
Qed.

Lemma badge_throws_iff_witness :
  ToolInvocationBadge
    {| toolName := "str_replace_editor";
       args := JsObject [("command", JsString "view");
                         ("path", JsArray [JsObject [("toString", JsNull)]])];
       state := Some "result" |}
  = Throw TypeError.
Proof. apply badge_throws_iff. left. split; reflexivity. Defined.
